(** * A shallow embedding of the btsnoop decoder (src/src/lib.rs, src/src/hci.rs)

    Integers are [Z]; bytes are [Byte.byte]. A [std::io::Read] source is
    modelled as the list of what successive reads deliver: bytes, or an I/O
    error of some kind. An [io::Error] is represented by its [ErrorKind];
    the message strings of the source play no role in control flow. *)

From Stdlib Require Import ZArith List Lia Bool.
From Stdlib Require Import Strings.Byte.
Import ListNotations.
Open Scope Z_scope.

(** ** I/O errors and readers *)

Inductive ErrorKind :=
| UnexpectedEof
| InvalidData
| OtherKind (code : nat).

Definition ErrorKind_eqb (a b : ErrorKind) : bool :=
  match a, b with
  | UnexpectedEof, UnexpectedEof => true
  | InvalidData, InvalidData => true
  | OtherKind m, OtherKind n => Nat.eqb m n
  | _, _ => false
  end.

Inductive io_result (A : Type) :=
| Ok (a : A)
| Err (e : ErrorKind).
Arguments Ok {A} a.
Arguments Err {A} e.

Inductive item :=
| IByte (b : byte)
| IErr (k : ErrorKind).

Definition reader := list item.

(** A reader that delivers exactly the given bytes and then end of input,
    as [&[u8]] does. *)
Definition of_bytes (bs : list byte) : reader := map IByte bs.

(** [Read::read_exact]: fill a buffer of [n] bytes, failing with
    [UnexpectedEof] when the source ends first and with the source's own
    error when a read fails. *)
Fixpoint read_exact (n : nat) (r : reader) : io_result (list byte * reader) :=
  match n with
  | O => Ok ([], r)
  | S n' =>
      match r with
      | [] => Err UnexpectedEof
      | IErr k :: _ => Err k
      | IByte b :: r' =>
          match read_exact n' r' with
          | Ok (bs, r'') => Ok (b :: bs, r'')
          | Err e => Err e
          end
      end
  end.

(** ** A state and error monad over the reader ([io::Result] and [?]) *)

Definition M (A : Type) := reader -> io_result (A * reader).

Definition ret {A} (a : A) : M A := fun r => Ok (a, r).

Definition bind {A B} (m : M A) (k : A -> M B) : M B :=
  fun r => match m r with
           | Ok (a, r') => k a r'
           | Err e => Err e
           end.

Notation "x <- m ;; k" := (bind m (fun x => k))
  (at level 61, m at next level, right associativity).

(** ** Byte order *)

Definition bz (b : byte) : Z := Z.of_N (Byte.to_N b).

(** Big-endian value of a byte string. *)
Definition be_value (bs : list byte) : Z :=
  fold_left (fun acc b => acc * 256 + bz b) bs 0.

(** Little-endian value of a byte string. *)
Definition le_value (bs : list byte) : Z := be_value (rev bs).

Definition read_bytes (n : nat) : M (list byte) := read_exact n.

(** [ReadBytesExt::read_u32::<BigEndian>] *)
Definition read_u32_be : M Z :=
  bs <- read_bytes 4 ;; ret (be_value bs).

(** [ReadBytesExt::read_i64::<BigEndian>]: two's complement of 8 bytes. *)
Definition i64_of_be (bs : list byte) : Z :=
  let u := be_value bs in
  if u <? 2 ^ 63 then u else u - 2 ^ 64.

Definition read_i64_be : M Z :=
  bs <- read_bytes 8 ;; ret (i64_of_be bs).

(** [ReadBytesExt::read_u16::<LittleEndian>] *)
Definition read_u16_le : M Z :=
  bs <- read_bytes 2 ;; ret (le_value bs).

(** [ReadBytesExt::read_u8] *)
Definition read_u8 : M Z :=
  bs <- read_bytes 1 ;; ret (be_value bs).

(** ** Header *)

Inductive DatalinkType :=
| Reserved (v : Z)
| UnencapsulatedHci
| Uart
| Bscp
| Serial
| Unassigned (v : Z).

(** [impl From<u32> for DatalinkType] *)
Definition DatalinkType_from (value : Z) : DatalinkType :=
  if (0 <=? value) && (value <=? 1000) then Reserved value
  else if value =? 1001 then UnencapsulatedHci
  else if value =? 1002 then Uart
  else if value =? 1003 then Bscp
  else if value =? 1004 then Serial
  else Unassigned value.

Inductive IdentificationPattern := IdentificationPatternC.

(** [IdentificationPattern::IDENTIFICATION_PATTERN] *)
Definition IDENTIFICATION_PATTERN : list byte :=
  [x62; x74; x73; x6e; x6f; x6f; x70; x00].

Definition bytes_eqb (a b : list byte) : bool :=
  if list_eq_dec Byte.byte_eq_dec a b then true else false.

(** [impl TryFrom<[u8; 8]> for IdentificationPattern] *)
Definition IdentificationPattern_try_from (value : list byte)
  : io_result IdentificationPattern :=
  if bytes_eqb value IDENTIFICATION_PATTERN then Ok IdentificationPatternC
  else Err InvalidData.

Definition lift {A} (x : io_result A) : M A :=
  fun r => match x with Ok a => Ok (a, r) | Err e => Err e end.

Record Header := mkHeader {
  identification_pattern : IdentificationPattern;
  version : Z;
  datalink_type : DatalinkType
}.

(** [Header::parse] *)
Definition Header_parse : M Header :=
  id_pat <- read_bytes 8 ;;
  identification_pattern <- lift (IdentificationPattern_try_from id_pat) ;;
  version <- read_u32_be ;;
  datalink_type <- read_u32_be ;;
  ret (mkHeader identification_pattern version (DatalinkType_from datalink_type)).

(** ** Packet records *)

(** [PacketFlags(pub u32)]: the raw 32-bit flags word. *)
Record PacketFlags := mkPacketFlags { flags_raw : Z }.

Record PacketDescription := mkPacketDescription {
  original_length : Z;
  included_length : Z;
  flags : PacketFlags;
  cumulative_drops : Z;
  timestamp : Z
}.

(** [PacketData(pub Vec<u8>)] *)
Record PacketData := mkPacketData { data_bytes : list byte }.

Record Packet := mkPacket {
  description : PacketDescription;
  data : PacketData
}.

(** [PacketDescription::parse] *)
Definition PacketDescription_parse : M PacketDescription :=
  original_length <- read_u32_be ;;
  included_length <- read_u32_be ;;
  flags <- read_u32_be ;;
  let flags := mkPacketFlags flags in
  cumulative_drops <- read_u32_be ;;
  timestamp <- read_i64_be ;;
  ret (mkPacketDescription original_length included_length flags
         cumulative_drops timestamp).

(** [Packet::parse]: [vec![0; included_length as usize]] filled by
    [read_exact]. *)
Definition Packet_parse : M Packet :=
  description <- PacketDescription_parse ;;
  data <- read_bytes (Z.to_nat (included_length description)) ;;
  ret (mkPacket description (mkPacketData data)).

(** ** The container *)

Record Btsnoop := mkBtsnoop {
  header : Header;
  packets : list Packet
}.

(** The [loop] of [Btsnoop::parse], run for at most [fuel] iterations.
    Every packet consumes at least 24 items of the reader, so the fuel
    given by [Btsnoop_parse] is never exhausted (see [parse_loop_spec]). *)
Fixpoint parse_loop (fuel : nat) (packets : list Packet) (r : reader)
  : io_result (list Packet) :=
  match fuel with
  | O => Ok packets
  | S fuel' =>
      match Packet_parse r with
      | Ok (packet, r') => parse_loop fuel' (packets ++ [packet]) r'
      | Err e =>
          if ErrorKind_eqb e UnexpectedEof then Ok packets
          else Err e
      end
  end.

(** [Btsnoop::parse]. The state of the reader after the call is not part
    of the result. *)
Definition Btsnoop_parse (r : reader) : io_result Btsnoop :=
  match Header_parse r with
  | Err e => Err e
  | Ok (header, r') =>
      match parse_loop (S (length r')) [] r' with
      | Ok packets => Ok (mkBtsnoop header packets)
      | Err e => Err e
      end
  end.

(** ** Flags *)

Inductive DirectionFlag := Sent | Received.
Inductive CommandFlag := Data | CommandOrEvnet.

(** [impl TryFrom<u8> for DirectionFlag] *)
Definition DirectionFlag_try_from (value : Z) : io_result DirectionFlag :=
  match Z.land value 1 with
  | 0 => Ok Sent
  | 1 => Ok Received
  | _ => Err InvalidData
  end.

(** [impl TryFrom<u8> for CommandFlag] *)
Definition CommandFlag_try_from (value : Z) : io_result CommandFlag :=
  match Z.land (Z.shiftr value 1) 1 with
  | 0 => Ok Data
  | 1 => Ok CommandOrEvnet
  | _ => Err InvalidData
  end.

(** The Rust cast [x as u8] of a 32-bit value. *)
Definition as_u8 (x : Z) : Z := x mod 256.

(** ** HCI commands (src/src/hci.rs) *)

(** Evaluation that may panic ([unwrap] on an error, slice index out of
    range). A panic is not a value the caller can inspect. *)
Inductive outcome (A : Type) :=
| Returns (a : A)
| Panics.
Arguments Returns {A} a.
Arguments Panics {A}.

Definition unwrap {A} (x : io_result A) : outcome A :=
  match x with Ok a => Returns a | Err _ => Panics end.

(** [Opcode(u16)] *)
Record Opcode := mkOpcode { opcode_raw : Z }.

(** [Opcode::ocf] *)
Definition ocf (o : Opcode) : Z := Z.land (opcode_raw o) 1023.

(** [Opcode::ogf]: [(self.0 >> 10) as u8] *)
Definition ogf (o : Opcode) : Z := as_u8 (Z.shiftr (opcode_raw o) 10).

(** [Command<'a>]; [params] borrows the bytes it names. *)
Record Command := mkCommand {
  opcode : Opcode;
  params_len : Z;
  params : list byte
}.

Definition PARAMS_START_BYTE : nat := 3.

(** [&data[start..]]: panics when [start] exceeds the length. *)
Definition slice_from {A} (start : nat) (l : list A) : outcome (list A) :=
  if Nat.leb start (length l) then Returns (skipn start l) else Panics.

(** [Command::from]: a [bytes::buf::Reader] over the slice, read with
    [read_u16::<LittleEndian>().unwrap()] and [read_u8().unwrap()]. *)
Definition Command_from (data : list byte) : outcome Command :=
  let reader := of_bytes data in
  match unwrap (read_u16_le reader) with
  | Panics => Panics
  | Returns (op, reader) =>
      let opcode := mkOpcode op in
      match unwrap (read_u8 reader) with
      | Panics => Panics
      | Returns (params_len, _) =>
          match slice_from PARAMS_START_BYTE data with
          | Panics => Panics
          | Returns params => Returns (mkCommand opcode params_len params)
          end
      end
  end.

(** ** UART framing *)

Inductive UartPacketType := Cmd | Acl | Sco | Evt | Iso.

(** [UartPacketType::try_from_primitive] derived by [TryFromPrimitive]. *)
Definition UartPacketType_try_from_primitive (tp : Z) : option UartPacketType :=
  match tp with
  | 1 => Some Cmd
  | 2 => Some Acl
  | 3 => Some Sco
  | 4 => Some Evt
  | 5 => Some Iso
  | _ => None
  end.

Inductive UartData :=
| UCommand (c : Command)
| Todos.

(** [parse_uart_packet(packet: &mut Packet)]: the packet behind the mutable
    reference is threaded through and handed back with the result. *)
Definition parse_uart_packet (packet : Packet)
  : outcome (io_result UartData * Packet) :=
  let data := data_bytes (data packet) in
  match data with
  | [] => Returns (Ok Todos, packet)
  | tp :: _ =>
      match UartPacketType_try_from_primitive (bz tp) with
      | None => Returns (Err InvalidData, packet)
      | Some uart_type =>
          match uart_type with
          | Cmd =>
              match slice_from 1 data with
              | Panics => Panics
              | Returns rest =>
                  match Command_from rest with
                  | Panics => Panics
                  | Returns cmd => Returns (Ok (UCommand cmd), packet)
                  end
              end
          | _ => Returns (Ok Todos, packet)
          end
      end
  end.

(** ** Test inputs *)

Definition sample_header_bytes : list byte :=
  IDENTIFICATION_PATTERN ++ [x00; x00; x00; x01; x00; x00; x03; xea].

Definition sample_record_bytes : list byte :=
  [x00; x00; x00; x04; x00; x00; x00; x04; x00; x00; x00; x02;
   x00; x00; x00; x00; x00; x00; x00; x00; x00; x00; x00; x2a;
   x01; x01; x02; x00].

(** ** Auxiliary notions used in statements *)

Definition res_map {A B} (f : A -> B) (x : io_result A) : io_result B :=
  match x with Ok a => Ok (f a) | Err e => Err e end.

(** The bytes [off .. off + len - 1] of a byte string. *)
Definition field (bs : list byte) (off len : nat) : list byte :=
  firstn len (skipn off bs).

(** A reader that never reports an I/O error (a finite byte source). *)
Definition no_err (r : reader) : Prop := forall k, ~ In (IErr k) r.

(** The record loop of the container as the spec describes it: parse a
    record; on success keep it and continue; on end of source stop with
    what has been gathered; on any other failure abort with it. *)
Inductive packets_loop : reader -> io_result (list Packet) -> Prop :=
| loop_eof r :
    Packet_parse r = Err UnexpectedEof -> packets_loop r (Ok [])
| loop_fail r e :
    Packet_parse r = Err e -> e <> UnexpectedEof -> packets_loop r (Err e)
| loop_next r p r' res :
    Packet_parse r = Ok (p, r') -> packets_loop r' res ->
    packets_loop r (res_map (cons p) res).

(** The byte layout of one record, field by field, as [Packet::parse]
    reads it: original length, included length, flags, cumulative drops,
    timestamp, data. *)
Record raw_record := mkRawRecord {
  raw_original : list byte;
  raw_included : list byte;
  raw_flags : list byte;
  raw_drops : list byte;
  raw_timestamp : list byte;
  raw_data : list byte
}.

Definition raw_ok (rr : raw_record) : Prop :=
  length (raw_original rr) = 4%nat /\ length (raw_included rr) = 4%nat /\
  length (raw_flags rr) = 4%nat /\ length (raw_drops rr) = 4%nat /\
  length (raw_timestamp rr) = 8%nat /\
  length (raw_data rr) = Z.to_nat (be_value (raw_included rr)).

Definition raw_bytes (rr : raw_record) : list byte :=
  raw_original rr ++ raw_included rr ++ raw_flags rr ++ raw_drops rr ++
  raw_timestamp rr ++ raw_data rr.

(** The record a well-formed layout stands for. *)
Definition raw_packet (rr : raw_record) : Packet :=
  mkPacket
    (mkPacketDescription (be_value (raw_original rr)) (be_value (raw_included rr))
       (mkPacketFlags (be_value (raw_flags rr))) (be_value (raw_drops rr))
       (i64_of_be (raw_timestamp rr)))
    (mkPacketData (raw_data rr)).

(** Trailing bytes that hold no complete record: fewer than a description
    block, or a description block announcing more data than follows. *)
Definition truncated_tail (t : list byte) : Prop :=
  (length t < 24)%nat \/
  exists o il fl cd ts partial,
    t = o ++ il ++ fl ++ cd ++ ts ++ partial /\
    length o = 4%nat /\ length il = 4%nat /\ length fl = 4%nat /\
    length cd = 4%nat /\ length ts = 8%nat /\
    (length partial < Z.to_nat (be_value il))%nat.

(** The code a link type stands for: the discriminant of a named variant,
    or the raw value a [Reserved] or [Unassigned] variant carries. *)
Definition datalink_code (d : DatalinkType) : Z :=
  match d with
  | Reserved v => v
  | UnencapsulatedHci => 1001
  | Uart => 1002
  | Bscp => 1003
  | Serial => 1004
  | Unassigned v => v
  end.

(** [l1] is a prefix of [l2]. *)
Definition is_prefix {A} (l1 l2 : list A) : Prop := exists l, l2 = l1 ++ l.

(** The sample record, field by field. *)
Definition sample_raw_record : raw_record :=
  mkRawRecord [x00; x00; x00; x04] [x00; x00; x00; x04] [x00; x00; x00; x02]
    [x00; x00; x00; x00] [x00; x00; x00; x00; x00; x00; x00; x2a]
    [x01; x01; x02; x00].

(** ** Lemmas on readers *)

Lemma read_exact_app n bs r :
  length bs = n -> read_exact n (of_bytes bs ++ r) = Ok (bs, r).
Proof.
  revert n; induction bs as [|b bs IH]; intros [|n] H; simpl in *;
    try discriminate; auto.
  rewrite IH by lia; reflexivity.
Qed.

Lemma read_exact_short n bs :
  (length bs < n)%nat -> read_exact n (of_bytes bs) = Err UnexpectedEof.
Proof.
  revert n; induction bs as [|b bs IH]; intros [|n] H; simpl in *;
    try lia; auto.
  rewrite IH by lia; reflexivity.
Qed.

Lemma read_exact_ok n r bs r' :
  read_exact n r = Ok (bs, r') -> r = of_bytes bs ++ r' /\ length bs = n.
Proof.
  revert r bs; induction n as [|n IH]; intros r bs H; simpl in H.
  - inversion H; subst; auto.
  - destruct r as [|[b|k] r]; try discriminate.
    destruct (read_exact n r) as [[bs0 r0]|e] eqn:E; try discriminate.
    inversion H; subst. destruct (IH _ _ E) as [-> <-]. auto.
Qed.

Lemma read_exact_err n r e :
  read_exact n r = Err e -> no_err r -> e = UnexpectedEof.
Proof.
  revert r; induction n as [|n IH]; intros r H Hr; simpl in H; try discriminate.
  destruct r as [|[b|k] r].
  - congruence.
  - destruct (read_exact n r) as [[bs0 r0]|e0] eqn:E; try discriminate.
    inversion H; subst. apply (IH r E). intros k Hk; apply (Hr k); right; auto.
  - exfalso; apply (Hr k); left; congruence.
Qed.

Lemma no_err_app_r a b : no_err (a ++ b) -> no_err b.
Proof. intros H k Hk. apply (H k), in_or_app; auto. Qed.

Lemma no_err_of_bytes bs : no_err (of_bytes bs).
Proof.
  intros k Hk. unfold of_bytes in Hk. apply in_map_iff in Hk.
  destruct Hk as [? [? _]]; discriminate.
Qed.

(** A computation [eats] at least [n] bytes of the reader when it succeeds,
    and is [eof_only] when, on a reader with no I/O error, its only failure
    is end of source. *)
Definition eats {A} (m : M A) (n : nat) : Prop :=
  forall r a r', m r = Ok (a, r') ->
    exists pre, r = of_bytes pre ++ r' /\ (n <= length pre)%nat.

Definition eof_only {A} (m : M A) : Prop :=
  forall r e, m r = Err e -> no_err r -> e = UnexpectedEof.

Lemma eats_ret {A} (a : A) : eats (ret a) 0.
Proof. intros r x r' H. inversion H; subst. exists []. simpl; auto. Qed.

Lemma eof_only_ret {A} (a : A) : eof_only (ret a).
Proof. intros r e H. discriminate. Qed.

Lemma eats_read_bytes n : eats (read_bytes n) n.
Proof.
  intros r a r' H. apply read_exact_ok in H as [-> <-]. eauto.
Qed.

Lemma eof_only_read_bytes n : eof_only (read_bytes n).
Proof. intros r e H. exact (read_exact_err n r e H). Qed.

Lemma eats_bind {A B} (m : M A) (k : A -> M B) n n' :
  eats m n -> (forall a, eats (k a) n') -> eats (bind m k) (n + n').
Proof.
  intros Hm Hk r b r' H. unfold bind in H.
  destruct (m r) as [[a r1]|e] eqn:E; try discriminate.
  destruct (Hm _ _ _ E) as [pre1 [-> L1]].
  destruct (Hk _ _ _ _ H) as [pre2 [-> L2]].
  exists (pre1 ++ pre2). unfold of_bytes. rewrite map_app, length_app, app_assoc.
  split; [reflexivity | lia].
Qed.

Lemma eof_only_bind {A B} (m : M A) (k : A -> M B) n :
  eats m n -> eof_only m -> (forall a, eof_only (k a)) -> eof_only (bind m k).
Proof.
  intros Hm Hm' Hk r e H Hr. unfold bind in H.
  destruct (m r) as [[a r1]|e0] eqn:E.
  - destruct (Hm _ _ _ E) as [pre [-> _]].
    exact (Hk a _ _ H (no_err_app_r _ _ Hr)).
  - inversion H; subst. exact (Hm' _ _ E Hr).
Qed.

Lemma eats_weaken {A} (m : M A) n n' : (n' <= n)%nat -> eats m n -> eats m n'.
Proof.
  intros Hle H r a r' E. destruct (H _ _ _ E) as [pre [? ?]].
  exists pre; split; auto; lia.
Qed.

Ltac eats_step :=
  first
  [ apply eats_ret
  | apply eats_read_bytes
  | eapply eats_weaken; [apply Nat.le_0_l | apply eats_read_bytes]
  | eapply eats_bind; [ | intro; cbv beta zeta ] ].

Ltac eof_only_step :=
  first
  [ apply eof_only_ret
  | apply eof_only_read_bytes
  | eapply eof_only_bind;
      [ repeat eats_step | | intro; cbv beta zeta ] ].

Lemma PacketDescription_parse_eats : eats PacketDescription_parse 24.
Proof.
  unfold PacketDescription_parse, read_u32_be, read_i64_be.
  eapply eats_weaken; [ | repeat eats_step ]. simpl; lia.
Qed.

Lemma Packet_parse_eats : eats Packet_parse 24.
Proof.
  unfold Packet_parse.
  eapply eats_weaken; [ | eapply eats_bind;
    [ apply PacketDescription_parse_eats | intro; repeat eats_step ] ].
  simpl; lia.
Qed.

Lemma Packet_parse_eof_only : eof_only Packet_parse.
Proof.
  unfold Packet_parse, PacketDescription_parse, read_u32_be, read_i64_be.
  repeat eof_only_step.
Qed.

Lemma of_bytes_app a b : of_bytes (a ++ b) = of_bytes a ++ of_bytes b.
Proof. apply map_app. Qed.

Lemma parse_loop_spec fuel r acc :
  (length r < fuel)%nat ->
  exists res, packets_loop r res /\ parse_loop fuel acc r = res_map (app acc) res.
Proof.
  revert r acc; induction fuel as [|fuel IH]; intros r acc Hlt; [lia|].
  simpl. destruct (Packet_parse r) as [[p r']|e] eqn:E.
  - destruct (Packet_parse_eats _ _ _ E) as [pre [Hr Hl]].
    assert (Hlt' : (length r' < fuel)%nat).
    { subst r. unfold of_bytes in Hlt. rewrite length_app, length_map in Hlt. lia. }
    destruct (IH r' (acc ++ [p]) Hlt') as [res [Hloop Heq]].
    exists (res_map (cons p) res). split.
    + eapply loop_next; eauto.
    + rewrite Heq. destruct res; simpl; auto. rewrite <- app_assoc; reflexivity.
  - destruct e eqn:Ee; simpl.
    + exists (Ok []). split; [constructor; auto | simpl; rewrite app_nil_r; auto].
    + exists (Err InvalidData). split; [constructor; auto; discriminate | auto].
    + exists (Err (OtherKind code)). split; [constructor; auto; discriminate | auto].
Qed.

Lemma packets_loop_no_err r res :
  packets_loop r res -> no_err r -> exists ps, res = Ok ps.
Proof.
  induction 1 as [r H|r e H Hne|r p r' res H Hl IH]; intros Hr.
  - eauto.
  - exfalso. exact (Hne (Packet_parse_eof_only _ _ H Hr)).
  - destruct (Packet_parse_eats _ _ _ H) as [pre [-> _]].
    destruct (IH (no_err_app_r _ _ Hr)) as [ps ->]. simpl; eauto.
Qed.

Lemma bytes_eqb_spec a b : bytes_eqb a b = true <-> a = b.
Proof.
  unfold bytes_eqb. destruct (list_eq_dec byte_eq_dec a b); split; congruence.
Qed.

Lemma IdentificationPattern_try_from_valid :
  IdentificationPattern_try_from IDENTIFICATION_PATTERN = Ok IdentificationPatternC.
Proof.
  unfold IdentificationPattern_try_from.
  replace (bytes_eqb _ _) with true; [reflexivity|].
  symmetry; apply bytes_eqb_spec; reflexivity.
Qed.

Lemma IdentificationPattern_try_from_invalid v :
  v <> IDENTIFICATION_PATTERN -> IdentificationPattern_try_from v = Err InvalidData.
Proof.
  intros H. unfold IdentificationPattern_try_from.
  destruct (bytes_eqb v IDENTIFICATION_PATTERN) eqn:E; auto.
  apply bytes_eqb_spec in E; contradiction.
Qed.

Lemma Header_parse_valid v l r :
  length v = 4%nat -> length l = 4%nat ->
  Header_parse (of_bytes (IDENTIFICATION_PATTERN ++ v ++ l) ++ r)
  = Ok (mkHeader IdentificationPatternC (be_value v)
          (DatalinkType_from (be_value l)), r).
Proof.
  intros Hv Hl.
  unfold Header_parse, read_u32_be, read_bytes, bind, ret, lift; cbv beta.
  rewrite !of_bytes_app, <- !app_assoc.
  rewrite read_exact_app by reflexivity.
  rewrite IdentificationPattern_try_from_valid.
  rewrite read_exact_app by exact Hv.
  rewrite read_exact_app by exact Hl. reflexivity.
Qed.

Lemma Packet_parse_record o il fl cd ts dat r :
  length o = 4%nat -> length il = 4%nat -> length fl = 4%nat ->
  length cd = 4%nat -> length ts = 8%nat ->
  length dat = Z.to_nat (be_value il) ->
  Packet_parse (of_bytes (o ++ il ++ fl ++ cd ++ ts ++ dat) ++ r)
  = Ok (mkPacket
          (mkPacketDescription (be_value o) (be_value il)
             (mkPacketFlags (be_value fl)) (be_value cd) (i64_of_be ts))
          (mkPacketData dat), r).
Proof.
  intros Ho Hil Hfl Hcd Hts Hdat.
  unfold Packet_parse, PacketDescription_parse, read_u32_be, read_i64_be,
    read_bytes, bind, ret; cbv beta.
  rewrite !of_bytes_app, <- !app_assoc.
  rewrite read_exact_app by exact Ho.
  rewrite read_exact_app by exact Hil.
  rewrite read_exact_app by exact Hfl.
  rewrite read_exact_app by exact Hcd.
  rewrite read_exact_app by exact Hts.
  cbn [included_length]. rewrite read_exact_app by exact Hdat. reflexivity.
Qed.

Lemma Packet_parse_short bs :
  (length bs < 24)%nat -> Packet_parse (of_bytes bs) = Err UnexpectedEof.
Proof.
  intros H. destruct (Packet_parse (of_bytes bs)) as [[p r']|e] eqn:E.
  - destruct (Packet_parse_eats _ _ _ E) as [pre [Hr Hl]].
    apply (f_equal (@length item)) in Hr.
    unfold of_bytes in Hr. rewrite length_app, !length_map in Hr. lia.
  - f_equal. exact (Packet_parse_eof_only _ _ E (no_err_of_bytes bs)).
Qed.

Lemma parse_loop_short fuel acc bs :
  (length bs < 24)%nat -> (0 < fuel)%nat -> parse_loop fuel acc (of_bytes bs) = Ok acc.
Proof.
  intros H Hf. destruct fuel as [|fuel]; [lia|].
  simpl. rewrite Packet_parse_short by exact H. reflexivity.
Qed.

Lemma Btsnoop_parse_header r h r' :
  Header_parse r = Ok (h, r') ->
  Btsnoop_parse r = res_map (mkBtsnoop h) (parse_loop (S (length r')) [] r').
Proof.
  intros H. unfold Btsnoop_parse. rewrite H.
  destruct (parse_loop _ _ _); reflexivity.
Qed.

Lemma PacketDescription_parse_ok r d r' :
  PacketDescription_parse r = Ok (d, r') ->
  exists o il fl cd ts,
    length o = 4%nat /\ length il = 4%nat /\ length fl = 4%nat /\
    length cd = 4%nat /\ length ts = 8%nat /\
    r = of_bytes (o ++ il ++ fl ++ cd ++ ts) ++ r' /\
    d = mkPacketDescription (be_value o) (be_value il)
          (mkPacketFlags (be_value fl)) (be_value cd) (i64_of_be ts).
Proof.
  unfold PacketDescription_parse, read_u32_be, read_i64_be, read_bytes, bind, ret.
  intros H.
  repeat match type of H with
  | context [read_exact ?n ?x] =>
      let E := fresh "E" in
      destruct (read_exact n x) as [[? ?]|?] eqn:E; try discriminate;
      apply read_exact_ok in E as [? ?]
  end.
  inversion H; subst.
  do 5 eexists. repeat split; try eassumption.
  rewrite !of_bytes_app, <- !app_assoc. reflexivity.
Qed.

Lemma read_exact_prefix n bs :
  (n <= length bs)%nat ->
  read_exact n (of_bytes bs) = Ok (firstn n bs, of_bytes (skipn n bs)).
Proof.
  intros H. rewrite <- (firstn_skipn n bs) at 1.
  rewrite of_bytes_app. apply read_exact_app.
  rewrite length_firstn. lia.
Qed.

Lemma Header_parse_short bs :
  (length bs < 8)%nat -> Header_parse (of_bytes bs) = Err UnexpectedEof.
Proof.
  intros H. unfold Header_parse, read_bytes, bind.
  rewrite read_exact_short by exact H. reflexivity.
Qed.

Lemma Header_parse_bad_magic bs :
  (8 <= length bs)%nat -> firstn 8 bs <> IDENTIFICATION_PATTERN ->
  Header_parse (of_bytes bs) = Err InvalidData.
Proof.
  intros H Hm. unfold Header_parse, read_bytes, bind, lift.
  rewrite read_exact_prefix by exact H.
  rewrite IdentificationPattern_try_from_invalid by exact Hm. reflexivity.
Qed.

Lemma Header_parse_truncated rest :
  (length rest < 8)%nat ->
  Header_parse (of_bytes (IDENTIFICATION_PATTERN ++ rest)) = Err UnexpectedEof.
Proof.
  intros H. unfold Header_parse, read_u32_be, read_bytes, bind, lift, ret.
  rewrite of_bytes_app, read_exact_app by reflexivity.
  rewrite IdentificationPattern_try_from_valid.
  destruct (Nat.lt_ge_cases (length rest) 4) as [H4|H4].
  - rewrite read_exact_short by exact H4. reflexivity.
  - rewrite read_exact_prefix by exact H4.
    rewrite read_exact_short by (rewrite length_skipn; lia). reflexivity.
Qed.

Lemma Command_from_cons3 b0 b1 b2 rest :
  Command_from (b0 :: b1 :: b2 :: rest)
  = Returns (mkCommand (mkOpcode (bz b0 + 256 * bz b1)) (bz b2) rest).
Proof.
  unfold Command_from. cbn -[Z.mul Z.add].
  do 3 f_equal. ring.
Qed.

Lemma Command_from_short data :
  (length data < 3)%nat -> Command_from data = Panics.
Proof.
  intros H. destruct data as [|b0 [|b1 [|b2 rest]]]; try reflexivity.
  simpl in H; lia.
Qed.

Lemma UartPacketType_try_from_primitive_none z :
  UartPacketType_try_from_primitive z = None <-> ~ (1 <= z <= 5).
Proof.
  unfold UartPacketType_try_from_primitive; destruct z as [|p|p];
    [|destruct p as [[[p|p|]|[p|p|]|]|[[p|p|]|[p|p|]|]|]|];
    split; intros; try discriminate; try reflexivity; lia.
Qed.

Lemma UartPacketType_try_from_primitive_some z t :
  UartPacketType_try_from_primitive z = Some t ->
  (t = Cmd <-> z = 1) /\ 1 <= z <= 5.
Proof.
  unfold UartPacketType_try_from_primitive; destruct z as [|p|p];
    [|destruct p as [[[p|p|]|[p|p|]|]|[[p|p|]|[p|p|]|]|]|];
    intros H; try discriminate; injection H as <-;
    (split; [split; intros; try discriminate; try reflexivity; lia | lia]).
Qed.

Lemma land_1_b2z x : Z.land x 1 = Z.b2z (Z.testbit x 0).
Proof.
  change (Z.land x 1) with (Z.land x (Z.ones 1)).
  rewrite Z.land_ones by lia. rewrite Z.testbit_spec' by lia.
  rewrite Z.pow_0_r, Z.div_1_r. reflexivity.
Qed.

Lemma as_u8_bit f m : 0 <= m < 8 -> Z.testbit (as_u8 f) m = Z.testbit f m.
Proof.
  intros H. unfold as_u8. change 256 with (2 ^ 8).
  apply Z.mod_pow2_bits_low. lia.
Qed.

(** ** Claims *)

(** C1. [Btsnoop::parse] parses the header and then runs the record loop:
    each record parsed is appended in order, an end-of-source failure of
    the record parser ends the loop with success, and any other failure
    aborts the parse with that failure. On a finite byte source with a
    valid header the parse always succeeds; in particular a lone header
    gives no records, and a header, one complete record and 3 trailing
    bytes give exactly that record. *)
Theorem Btsnoop_parse_record_loop :
  (forall r h r', Header_parse r = Ok (h, r') ->
     exists res, packets_loop r' res /\
       Btsnoop_parse r = res_map (mkBtsnoop h) res)
  /\ (forall v l bs, length v = 4%nat -> length l = 4%nat ->
       exists ps, Btsnoop_parse (of_bytes (IDENTIFICATION_PATTERN ++ v ++ l ++ bs))
         = Ok (mkBtsnoop (mkHeader IdentificationPatternC (be_value v)
                            (DatalinkType_from (be_value l))) ps))
  /\ (forall v l, length v = 4%nat -> length l = 4%nat ->
       Btsnoop_parse (of_bytes (IDENTIFICATION_PATTERN ++ v ++ l))
         = Ok (mkBtsnoop (mkHeader IdentificationPatternC (be_value v)
                            (DatalinkType_from (be_value l))) []))
  /\ (forall v l o il fl cd ts dat t,
       length v = 4%nat -> length l = 4%nat ->
       length o = 4%nat -> length il = 4%nat -> length fl = 4%nat ->
       length cd = 4%nat -> length ts = 8%nat ->
       length dat = Z.to_nat (be_value il) -> length t = 3%nat ->
       Btsnoop_parse (of_bytes (IDENTIFICATION_PATTERN ++ v ++ l ++
                                o ++ il ++ fl ++ cd ++ ts ++ dat ++ t))
         = Ok (mkBtsnoop (mkHeader IdentificationPatternC (be_value v)
                            (DatalinkType_from (be_value l)))
                 [mkPacket
                    (mkPacketDescription (be_value o) (be_value il)
                       (mkPacketFlags (be_value fl)) (be_value cd) (i64_of_be ts))
                    (mkPacketData dat)])).
Proof.
  split; [|split; [|split]].
  - intros r h r' H.
    destruct (parse_loop_spec (S (length r')) r' [] ltac:(lia)) as [res [Hl Heq]].
    exists res. split; auto. rewrite (Btsnoop_parse_header _ _ _ H), Heq.
    destruct res; reflexivity.
  - intros v l bs Hv Hl.
    assert (Hh := Header_parse_valid v l (of_bytes bs) Hv Hl).
    rewrite <- of_bytes_app, <- !app_assoc in Hh.
    rewrite (Btsnoop_parse_header _ _ _ Hh).
    destruct (parse_loop_spec (S (length (of_bytes bs))) (of_bytes bs) [] ltac:(lia))
      as [res [Hloop Heq]].
    rewrite Heq.
    destruct (packets_loop_no_err _ _ Hloop (no_err_of_bytes bs)) as [ps ->].
    exists ps; reflexivity.
  - intros v l Hv Hl.
    assert (Hh := Header_parse_valid v l (of_bytes []) Hv Hl).
    rewrite <- of_bytes_app, app_nil_r in Hh.
    rewrite (Btsnoop_parse_header _ _ _ Hh), parse_loop_short; simpl; auto; lia.
  - intros v l o il fl cd ts dat t Hv Hl Ho Hil Hfl Hcd Hts Hdat Ht.
    assert (Hh := Header_parse_valid v l
                    (of_bytes (o ++ il ++ fl ++ cd ++ ts ++ dat ++ t)) Hv Hl).
    rewrite <- of_bytes_app, <- !app_assoc in Hh.
    rewrite (Btsnoop_parse_header _ _ _ Hh). cbn [parse_loop].
    assert (Hsplit : of_bytes (o ++ il ++ fl ++ cd ++ ts ++ dat ++ t)
                     = of_bytes (o ++ il ++ fl ++ cd ++ ts ++ dat) ++ of_bytes t).
    { rewrite <- of_bytes_app, <- !app_assoc. reflexivity. }
    rewrite Hsplit, Packet_parse_record by assumption.
    rewrite parse_loop_short by (try lia; unfold of_bytes;
      rewrite length_app, !length_map, !length_app; lia).
    reflexivity.
Qed.

(** C4. The record parser reads a 24-byte description block of big-endian
    fields (original length, included length, flags, cumulative drops as
    u32, timestamp as i64) and then exactly [included_length] data bytes,
    for any pair of length fields; every record it returns carries a data
    buffer of exactly [included_length] bytes. *)
Theorem Packet_parse_layout :
  (forall o il fl cd ts dat r,
     length o = 4%nat -> length il = 4%nat -> length fl = 4%nat ->
     length cd = 4%nat -> length ts = 8%nat ->
     length dat = Z.to_nat (be_value il) ->
     Packet_parse (of_bytes (o ++ il ++ fl ++ cd ++ ts ++ dat) ++ r)
     = Ok (mkPacket
             (mkPacketDescription (be_value o) (be_value il)
                (mkPacketFlags (be_value fl)) (be_value cd) (i64_of_be ts))
             (mkPacketData dat), r))
  /\ (forall r p r', Packet_parse r = Ok (p, r') ->
        length (data_bytes (data p)) = Z.to_nat (included_length (description p))
        /\ exists pre, r = of_bytes pre ++ r' /\
             length pre = (24 + Z.to_nat (included_length (description p)))%nat).
Proof.
  split.
  - intros; apply Packet_parse_record; assumption.
  - intros r p r' H.
    unfold Packet_parse, bind, ret, read_bytes in H.
    destruct (PacketDescription_parse r) as [[d r1]|e] eqn:Ed; try discriminate.
    destruct (read_exact _ r1) as [[bs r2]|e] eqn:Eb; try discriminate.
    inversion H; subst p r2; clear H.
    destruct (read_exact_ok _ _ _ _ Eb) as [-> Hlen].
    destruct (PacketDescription_parse_ok _ _ _ Ed)
      as [o [il [fl [cd [ts [Ho [Hil [Hfl [Hcd [Hts [-> ->]]]]]]]]]]].
    cbn [data_bytes data description included_length] in *. split; auto.
    exists ((o ++ il ++ fl ++ cd ++ ts) ++ bs).
    split; [rewrite !of_bytes_app, <- !app_assoc; reflexivity|].
    rewrite !length_app. lia.
Qed.

(** C2 (amended). Header parsing of a finite byte source: with fewer than
    8 bytes it fails with end of source; with at least 8 bytes whose first
    8 differ from the magic it fails with [InvalidData] (MalformedHeader),
    however short the source; with the magic and fewer than 16 bytes it
    fails with end of source; with the magic followed by at least 8 bytes it
    consumes exactly 16 bytes and returns the big-endian version and the
    link type of the big-endian code in bytes 12 to 15. *)
Theorem Header_parse_outcomes :
  (forall bs, (length bs < 8)%nat -> Header_parse (of_bytes bs) = Err UnexpectedEof)
  /\ (forall bs, (8 <= length bs)%nat -> firstn 8 bs <> IDENTIFICATION_PATTERN ->
        Header_parse (of_bytes bs) = Err InvalidData)
  /\ (forall bs, firstn 8 bs = IDENTIFICATION_PATTERN -> (length bs < 16)%nat ->
        Header_parse (of_bytes bs) = Err UnexpectedEof)
  /\ (forall v l r, length v = 4%nat -> length l = 4%nat ->
        Header_parse (of_bytes (IDENTIFICATION_PATTERN ++ v ++ l) ++ r)
        = Ok (mkHeader IdentificationPatternC (be_value v)
                (DatalinkType_from (be_value l)), r)).
Proof.
  split; [exact Header_parse_short|split; [exact Header_parse_bad_magic|split]].
  - intros bs Hm Hl. rewrite <- (firstn_skipn 8 bs), Hm.
    apply Header_parse_truncated.
    rewrite length_skipn. lia.
  - exact Header_parse_valid.
Qed.

(** C2 fails as stated: a 10-byte source with a wrong magic has fewer than
    16 bytes, yet the header parser reports [InvalidData], not end of
    source. *)
Lemma Header_parse_short_bad_magic_not_truncated :
  (length (repeat x00 10) < 16)%nat /\
  Header_parse (of_bytes (repeat x00 10)) = Err InvalidData /\
  Header_parse (of_bytes (repeat x00 10)) <> Err UnexpectedEof.
Proof.
  assert (H : Header_parse (of_bytes (repeat x00 10)) = Err InvalidData).
  { apply Header_parse_bad_magic; [simpl; lia | discriminate]. }
  split; [simpl; lia | split; [exact H | rewrite H; discriminate]].
Qed.

(** A record description used in the concrete cases below. *)
Definition zero_description : PacketDescription :=
  mkPacketDescription 0 0 (mkPacketFlags 0) 0 0.

(** C3 (amended). The inner-command decoder has no error result: for every
    buffer of at least 3 bytes it returns a command, and for a buffer of
    fewer than 3 bytes it panics (an [unwrap] of a failed read), which
    [parse_uart_packet] does not catch: a record whose data is [1] followed
    by fewer than 3 bytes makes [parse_uart_packet] panic. *)
Theorem Command_from_total_or_panics :
  (forall data, Command_from data = Panics <-> (length data < 3)%nat)
  /\ (forall data, (3 <= length data)%nat -> exists c, Command_from data = Returns c)
  /\ (forall desc rest, (length rest < 3)%nat ->
        parse_uart_packet (mkPacket desc (mkPacketData (x01 :: rest))) = Panics).
Proof.
  assert (Hge : forall data, (3 <= length data)%nat ->
                  exists c, Command_from data = Returns c).
  { intros [|b0 [|b1 [|b2 rest]]] H; simpl in H; try lia.
    rewrite Command_from_cons3. eauto. }
  split; [|split; [exact Hge|]].
  - intros data. split; [|apply Command_from_short].
    intros H. destruct (Nat.lt_ge_cases (length data) 3) as [L|L]; auto.
    destruct (Hge data L) as [c Hc]. congruence.
  - intros desc rest H. unfold parse_uart_packet. cbn.
    rewrite Command_from_short by exact H. reflexivity.
Qed.

(** C3 fails as stated: a two-byte command buffer yields no
    ShortCommandBuffer error but a panic, and so does the UART dispatch of
    a record whose data is [01 01 02]. *)
Lemma Command_from_short_buffer_panics :
  Command_from [x01; x02] = Panics /\
  parse_uart_packet (mkPacket zero_description (mkPacketData [x01; x01; x02]))
  = Panics.
Proof. split; reflexivity. Qed.

(** C7. For every buffer of at least 3 bytes the inner-command decoder
    reads a little-endian 16-bit opcode from bytes 0 and 1 and the
    parameter length from byte 2, and its parameters are all the bytes from
    offset 3 on, whatever the declared length. A UART record with data
    [01 01 02 00] decodes to opcode 0x0201 with OCF 0x0201 & 0x3FF, OGF
    0x0201 >> 10, parameter length 0 and no parameters. *)
Theorem Command_from_layout :
  (forall b0 b1 b2 rest,
     Command_from (b0 :: b1 :: b2 :: rest)
     = Returns (mkCommand (mkOpcode (bz b0 + 256 * bz b1)) (bz b2) rest))
  /\ (forall desc,
       let p := mkPacket desc (mkPacketData [x01; x01; x02; x00]) in
       exists c,
         parse_uart_packet p = Returns (Ok (UCommand c), p)
         /\ opcode_raw (opcode c) = 513
         /\ ocf (opcode c) = Z.land 513 1023
         /\ ogf (opcode c) = Z.shiftr 513 10
         /\ params_len c = 0
         /\ params c = []).
Proof.
  split; [exact Command_from_cons3|].
  intros desc p. eexists. split; [reflexivity|].
  repeat split; reflexivity.
Qed.

(** C5. The UART dispatcher returns [Todos] (Unhandled) for empty data;
    for non-empty data it fails, and then only with [InvalidData]
    (InvalidPacketType), exactly when the first byte is not one of 1 to 5;
    on first byte 1 it hands bytes 1.. to the inner-command decoder and
    wraps its result in the Command variant; on 2 to 5 it returns the
    [Todos] placeholder. *)
Theorem parse_uart_packet_dispatch :
  (forall desc,
     parse_uart_packet (mkPacket desc (mkPacketData []))
     = Returns (Ok Todos, mkPacket desc (mkPacketData [])))
  /\ (forall p tp rest, data_bytes (data p) = tp :: rest ->
        ((exists e q, parse_uart_packet p = Returns (Err e, q)) <-> ~ (1 <= bz tp <= 5)))
  /\ (forall p e q, parse_uart_packet p = Returns (Err e, q) -> e = InvalidData)
  /\ (forall p rest, data_bytes (data p) = x01 :: rest ->
        parse_uart_packet p
        = match Command_from rest with
          | Returns c => Returns (Ok (UCommand c), p)
          | Panics => Panics
          end)
  /\ (forall p tp rest, data_bytes (data p) = tp :: rest -> 2 <= bz tp <= 5 ->
        parse_uart_packet p = Returns (Ok Todos, p)).
Proof.
  split; [reflexivity|split; [|split; [|split]]].
  - intros p tp rest H. unfold parse_uart_packet. rewrite H.
    destruct (UartPacketType_try_from_primitive (bz tp)) as [t|] eqn:E.
    + apply UartPacketType_try_from_primitive_some in E as [_ Hr].
      split; [|tauto]. intros [e [q Hq]].
      destruct t; try discriminate. simpl in Hq.
      destruct (Command_from rest); discriminate.
    + apply UartPacketType_try_from_primitive_none in E. split; eauto.
  - intros p e q. unfold parse_uart_packet.
    destruct (data_bytes (data p)) as [|tp rest]; [discriminate|].
    destruct (UartPacketType_try_from_primitive (bz tp)) as [[]|];
      try discriminate.
    + simpl. destruct (Command_from rest); discriminate.
    + congruence.
  - intros p rest H. unfold parse_uart_packet. rewrite H. reflexivity.
  - intros p tp rest H Hr. unfold parse_uart_packet. rewrite H.
    destruct (UartPacketType_try_from_primitive (bz tp)) as [t|] eqn:E.
    + apply UartPacketType_try_from_primitive_some in E as [Ht _].
      destruct t; auto. assert (bz tp = 1) by (apply Ht; reflexivity). lia.
    + apply UartPacketType_try_from_primitive_none in E. lia.
Qed.

(** C10. [parse_uart_packet] does not modify the packet it is given: in
    every outcome that returns, the packet handed back is the one passed
    in, description and data bytes alike; in particular a record whose data
    starts with 9 is rejected with [InvalidData] and stays intact. *)
Theorem parse_uart_packet_frame :
  (forall p res p', parse_uart_packet p = Returns (res, p') -> p' = p)
  /\ (forall desc rest,
        parse_uart_packet (mkPacket desc (mkPacketData (x09 :: rest)))
        = Returns (Err InvalidData, mkPacket desc (mkPacketData (x09 :: rest)))).
Proof.
  split; [|reflexivity].
  intros p res p'. unfold parse_uart_packet.
  destruct (data_bytes (data p)) as [|tp rest]; [congruence|].
  destruct (UartPacketType_try_from_primitive (bz tp)) as [[]|];
    try congruence.
  simpl. destruct (Command_from rest); congruence.
Qed.

(** C6. The link-type mapping is total: codes 0 to 1000 give [Reserved]
    with the code, 1001 to 1004 give the four named types in order, and
    codes from 1005 to [u32::MAX] give [Unassigned] with the code. *)
Theorem DatalinkType_from_table :
  (forall v, 0 <= v <= 1000 -> DatalinkType_from v = Reserved v)
  /\ DatalinkType_from 1001 = UnencapsulatedHci
  /\ DatalinkType_from 1002 = Uart
  /\ DatalinkType_from 1003 = Bscp
  /\ DatalinkType_from 1004 = Serial
  /\ (forall v, 1005 <= v <= 4294967295 -> DatalinkType_from v = Unassigned v).
Proof.
  split; [|repeat split; try reflexivity].
  - intros v H. unfold DatalinkType_from.
    replace ((0 <=? v) && (v <=? 1000)) with true; [reflexivity|].
    symmetry; apply andb_true_iff; split; apply Z.leb_le; lia.
  - intros v H. unfold DatalinkType_from.
    replace ((0 <=? v) && (v <=? 1000)) with false
      by (symmetry; apply andb_false_iff; right; apply Z.leb_gt; lia).
    repeat (rewrite (proj2 (Z.eqb_neq _ _)) by lia). reflexivity.
Qed.

(** C8. Flag decoding cannot fail: for every 32-bit flags word, the
    direction decoder applied to its low byte gives [Sent] or [Received]
    after bit 0 alone, and the command decoder gives [Data] or
    [CommandOrEvnet] after bit 1 alone; the description parser stores the
    big-endian flags word read from bytes 8 to 11 unchanged. *)
Theorem packet_flags_decode :
  (forall f, 0 <= f <= 4294967295 ->
     DirectionFlag_try_from (as_u8 f)
       = Ok (if Z.testbit f 0 then Received else Sent)
     /\ CommandFlag_try_from (as_u8 f)
       = Ok (if Z.testbit f 1 then CommandOrEvnet else Data))
  /\ (forall o il fl cd ts r,
        length o = 4%nat -> length il = 4%nat -> length fl = 4%nat ->
        length cd = 4%nat -> length ts = 8%nat ->
        exists d, PacketDescription_parse (of_bytes (o ++ il ++ fl ++ cd ++ ts) ++ r)
                  = Ok (d, r)
                  /\ flags d = mkPacketFlags (be_value fl)).
Proof.
  split.
  - intros f _. unfold DirectionFlag_try_from, CommandFlag_try_from.
    rewrite !land_1_b2z, Z.shiftr_spec by lia.
    rewrite !as_u8_bit by lia.
    rewrite Z.add_0_l.
    destruct (Z.testbit f 0), (Z.testbit f 1); split; reflexivity.
  - intros o il fl cd ts r Ho Hil Hfl Hcd Hts. exists (mkPacketDescription (be_value o) (be_value il)
      (mkPacketFlags (be_value fl)) (be_value cd) (i64_of_be ts)).
    split; [|reflexivity].
    unfold PacketDescription_parse, read_u32_be, read_i64_be, read_bytes, bind, ret.
    cbv beta. rewrite !of_bytes_app, <- !app_assoc.
    rewrite read_exact_app by exact Ho.
    rewrite read_exact_app by exact Hil.
    rewrite read_exact_app by exact Hfl.
    rewrite read_exact_app by exact Hcd.
    rewrite read_exact_app by exact Hts. reflexivity.
Qed.

(** C9. Opcode decomposition is total: for every 16-bit opcode, OCF is
    the value masked with 0x3FF and OGF is the value shifted right by 10,
    which lies in 0x00 to 0x3F; the reserved category 0x3F is returned like
    any other. *)
Theorem Opcode_fields :
  (forall v, 0 <= v <= 65535 ->
     ocf (mkOpcode v) = Z.land v 1023
     /\ ogf (mkOpcode v) = Z.shiftr v 10
     /\ 0 <= ogf (mkOpcode v) <= 63)
  /\ ogf (mkOpcode 64512) = 63.
Proof.
  split; [|reflexivity].
  intros v H.
  assert (Hs : 0 <= Z.shiftr v 10 <= 63).
  { rewrite Z.shiftr_div_pow2 by lia. change (2 ^ 10) with 1024.
    split; [apply Z.div_pos; lia|].
    apply Z.lt_succ_r, Z.div_lt_upper_bound; lia. }
  assert (Ho : ogf (mkOpcode v) = Z.shiftr v 10).
  { unfold ogf, as_u8. cbn [opcode_raw]. apply Z.mod_small. lia. }
  split; [reflexivity|split; [exact Ho|rewrite Ho; exact Hs]].
Qed.

(** ** Concrete instances of the claims *)

(** A header, the sample record and 3 trailing bytes give one record. *)
Lemma Btsnoop_parse_record_loop_witness :
  exists b,
    Btsnoop_parse (of_bytes (sample_header_bytes ++ sample_record_bytes ++ [x01; x02; x03]))
    = Ok b /\ length (packets b) = 1%nat.
Proof.
  eexists. split.
  - apply (proj2 (proj2 (proj2 Btsnoop_parse_record_loop))
             [x00; x00; x00; x01] [x00; x00; x03; xea]
             [x00; x00; x00; x04] [x00; x00; x00; x04] [x00; x00; x00; x02]
             [x00; x00; x00; x00] [x00; x00; x00; x00; x00; x00; x00; x2a]
             [x01; x01; x02; x00] [x01; x02; x03]); reflexivity.
  - reflexivity.
Defined.

Lemma Header_parse_outcomes_witness :
  Header_parse (of_bytes (repeat x00 10)) = Err InvalidData.
Proof.
  apply (proj1 (proj2 Header_parse_outcomes) (repeat x00 10));
    [simpl; lia | discriminate].
Defined.

Lemma Command_from_total_or_panics_witness :
  parse_uart_packet (mkPacket zero_description (mkPacketData [x01; x01])) = Panics.
Proof.
  apply (proj2 (proj2 Command_from_total_or_panics) zero_description [x01]).
  simpl; lia.
Defined.

Lemma Packet_parse_layout_witness :
  exists p, Packet_parse (of_bytes sample_record_bytes ++ []) = Ok (p, []).
Proof.
  eexists.
  apply (proj1 Packet_parse_layout
           [x00; x00; x00; x04] [x00; x00; x00; x04] [x00; x00; x00; x02]
           [x00; x00; x00; x00] [x00; x00; x00; x00; x00; x00; x00; x2a]
           [x01; x01; x02; x00] []); reflexivity.
Defined.

Lemma parse_uart_packet_dispatch_witness :
  parse_uart_packet (mkPacket zero_description (mkPacketData [x03; x00]))
  = Returns (Ok Todos, mkPacket zero_description (mkPacketData [x03; x00])).
Proof.
  apply (proj2 (proj2 (proj2 (proj2 parse_uart_packet_dispatch)))
           (mkPacket zero_description (mkPacketData [x03; x00])) x03 [x00]);
    [reflexivity | unfold bz; simpl; lia].
Defined.

Lemma DatalinkType_from_table_witness :
  DatalinkType_from 500 = Reserved 500 /\ DatalinkType_from 70000 = Unassigned 70000.
Proof.
  split.
  - apply (proj1 DatalinkType_from_table 500); lia.
  - apply (proj2 (proj2 (proj2 (proj2 (proj2 DatalinkType_from_table)))) 70000); lia.
Defined.

Lemma packet_flags_decode_witness :
  DirectionFlag_try_from (as_u8 7) = Ok Received /\
  CommandFlag_try_from (as_u8 7) = Ok CommandOrEvnet.
Proof.
  apply (proj1 packet_flags_decode 7); lia.
Defined.

Lemma Opcode_fields_witness :
  ocf (mkOpcode 513) = Z.land 513 1023 /\ ogf (mkOpcode 513) = Z.shiftr 513 10
  /\ 0 <= ogf (mkOpcode 513) <= 63.
Proof.
  apply (proj1 Opcode_fields 513); lia.
Defined.

Lemma parse_uart_packet_frame_witness :
  mkPacket zero_description (mkPacketData [x02])
  = mkPacket zero_description (mkPacketData [x02]).
Proof.
  apply (proj1 parse_uart_packet_frame
           (mkPacket zero_description (mkPacketData [x02])) (Ok Todos)).
  reflexivity.
Defined.

(** ** Further properties of the decoder *)

Lemma bz_bounds b : 0 <= bz b <= 255.
Proof.
  unfold bz. pose proof (Byte.to_N_bounded b). lia.
Qed.

Lemma be_value_fold bs acc :
  fold_left (fun acc b => acc * 256 + bz b) bs acc
  = acc * 256 ^ Z.of_nat (length bs) + be_value bs.
Proof.
  unfold be_value. revert acc; induction bs as [|b bs IH]; intros acc.
  - simpl. lia.
  - cbn [fold_left length]. rewrite (IH (acc * 256 + bz b)), (IH (0 * 256 + bz b)).
    rewrite Nat2Z.inj_succ, Z.pow_succ_r by lia. ring.
Qed.

Lemma be_value_cons b bs :
  be_value (b :: bs) = bz b * 256 ^ Z.of_nat (length bs) + be_value bs.
Proof.
  unfold be_value at 1. cbn [fold_left]. rewrite be_value_fold. ring.
Qed.

Lemma be_value_bounds bs : 0 <= be_value bs < 256 ^ Z.of_nat (length bs).
Proof.
  induction bs as [|b bs IH].
  - cbv. split; congruence.
  - rewrite be_value_cons. cbn [length]. rewrite Nat2Z.inj_succ, Z.pow_succ_r by lia.
    pose proof (bz_bounds b). nia.
Qed.



Lemma Header_parse_ok r h r' :
  Header_parse r = Ok (h, r') ->
  exists v l, length v = 4%nat /\ length l = 4%nat /\
    r = of_bytes (IDENTIFICATION_PATTERN ++ v ++ l) ++ r' /\
    h = mkHeader IdentificationPatternC (be_value v) (DatalinkType_from (be_value l)).
Proof.
  unfold Header_parse, read_u32_be, read_bytes, bind, ret, lift.
  intros H.
  destruct (read_exact 8 r) as [[id r1]|?] eqn:E1; try discriminate.
  apply read_exact_ok in E1 as [-> L1].
  destruct (IdentificationPattern_try_from id) as [[]|?] eqn:Ei; try discriminate.
  unfold IdentificationPattern_try_from in Ei.
  destruct (bytes_eqb id IDENTIFICATION_PATTERN) eqn:Eq; try discriminate.
  apply bytes_eqb_spec in Eq as ->.
  destruct (read_exact 4 r1) as [[v r2]|?] eqn:E2; try discriminate.
  apply read_exact_ok in E2 as [-> L2].
  destruct (read_exact 4 r2) as [[l r3]|?] eqn:E3; try discriminate.
  apply read_exact_ok in E3 as [-> L3].
  inversion H; subst. exists v, l. repeat split; auto.
  rewrite !of_bytes_app, <- !app_assoc. reflexivity.
Qed.



(** A link type maps back to the code it was decoded from: the raw value is
    never lost, and distinct codes give distinct link types. *)
Theorem DatalinkType_from_code v : datalink_code (DatalinkType_from v) = v.
Proof.
  unfold DatalinkType_from.
  destruct ((0 <=? v) && (v <=? 1000)); [reflexivity|].
  destruct (Z.eqb_spec v 1001); [subst; reflexivity|].
  destruct (Z.eqb_spec v 1002); [subst; reflexivity|].
  destruct (Z.eqb_spec v 1003); [subst; reflexivity|].
  destruct (Z.eqb_spec v 1004); [subst; reflexivity|].
  reflexivity.
Qed.

Corollary DatalinkType_from_injective a b :
  DatalinkType_from a = DatalinkType_from b -> a = b.
Proof.
  intros H. rewrite <- (DatalinkType_from_code a), <- (DatalinkType_from_code b), H.
  reflexivity.
Qed.


(** The timestamp is read as a two's-complement number: it is negative
    exactly when the top bit of its first byte is set, and it agrees with
    the unsigned big-endian value modulo 2^64. *)
Theorem PacketDescription_timestamp_sign o il fl cd t0 ts r :
  length o = 4%nat -> length il = 4%nat -> length fl = 4%nat ->
  length cd = 4%nat -> length ts = 7%nat ->
  exists d,
    PacketDescription_parse (of_bytes (o ++ il ++ fl ++ cd ++ t0 :: ts) ++ r) = Ok (d, r)
    /\ (timestamp d < 0 <-> 128 <= bz t0)
    /\ timestamp d mod 2 ^ 64 = be_value (t0 :: ts).
Proof.
  intros Ho Hil Hfl Hcd Hts.
  exists (mkPacketDescription (be_value o) (be_value il)
       (mkPacketFlags (be_value fl)) (be_value cd) (i64_of_be (t0 :: ts))).
  split.
  - unfold PacketDescription_parse, read_u32_be, read_i64_be, read_bytes, bind, ret.
    cbv beta. rewrite !of_bytes_app, <- !app_assoc.
    rewrite read_exact_app by exact Ho.
    rewrite read_exact_app by exact Hil.
    rewrite read_exact_app by exact Hfl.
    rewrite read_exact_app by exact Hcd.
    rewrite read_exact_app by (simpl; lia). reflexivity.
  - cbn [timestamp]. unfold i64_of_be.
    pose proof (be_value_bounds ts) as B. rewrite Hts in B.
    pose proof (bz_bounds t0).
    rewrite be_value_cons, Hts.
    change (256 ^ Z.of_nat 7) with 72057594037927936 in *.
    destruct (Z.ltb_spec (bz t0 * 72057594037927936 + be_value ts) (2 ^ 63)).
    + split; [split; intros; lia|]. apply Z.mod_small. lia.
    + split; [split; intros; lia|].
      set (u := bz t0 * 72057594037927936 + be_value ts) in *.
      replace (u - 2 ^ 64) with (u + (-1) * 2 ^ 64) by ring.
      rewrite Z.mod_add by lia. apply Z.mod_small. lia.
Qed.

(** The two opcode fields together determine a 16-bit opcode:
    [v = ogf * 1024 + ocf] with [ocf] below 1024. *)
Theorem Opcode_recompose v :
  0 <= v < 65536 ->
  v = ogf (mkOpcode v) * 1024 + ocf (mkOpcode v) /\ 0 <= ocf (mkOpcode v) < 1024.
Proof.
  intros H. unfold ogf, ocf, as_u8. cbn [opcode_raw].
  change 1023 with (Z.ones 10). rewrite Z.land_ones by lia.
  rewrite Z.shiftr_div_pow2 by lia. change (2 ^ 10) with 1024.
  rewrite (Z.mod_small (v / 1024) 256)
    by (split; [apply Z.div_pos|apply Z.div_lt_upper_bound]; lia).
  pose proof (Z.div_mod v 1024 ltac:(lia)).
  pose proof (Z.mod_pos_bound v 1024 ltac:(lia)). lia.
Qed.

(** In a decoded command, OCF is the first byte plus the low two bits of the
    second byte times 256, and OGF is the second byte shifted right by 2. *)
Theorem Command_from_opcode_fields b0 b1 b2 rest :
  exists c, Command_from (b0 :: b1 :: b2 :: rest) = Returns c
  /\ ocf (opcode c) = bz b0 + 256 * Z.land (bz b1) 3
  /\ ogf (opcode c) = Z.shiftr (bz b1) 2
  /\ 0 <= opcode_raw (opcode c) < 65536
  /\ 0 <= params_len c < 256.
Proof.
  rewrite Command_from_cons3. eexists. split; [reflexivity|].
  pose proof (bz_bounds b0). pose proof (bz_bounds b1). pose proof (bz_bounds b2).
  unfold ocf, ogf, as_u8. cbn [opcode opcode_raw params_len].
  change 1023 with (Z.ones 10). change 3 with (Z.ones 2).
  rewrite !Z.land_ones, !Z.shiftr_div_pow2 by lia.
  change (2 ^ 10) with 1024. change (2 ^ 2) with 4.
  pose proof (Z.div_mod (bz b1) 4 ltac:(lia)).
  pose proof (Z.mod_pos_bound (bz b1) 4 ltac:(lia)).
  assert (Hq : (bz b0 + 256 * bz b1) / 1024 = bz b1 / 4).
  { symmetry. apply (Z.div_unique _ _ _ (bz b0 + 256 * (bz b1 mod 4))); lia. }
  split; [|split; [|lia]].
  - symmetry. apply (Z.mod_unique _ _ (bz b1 / 4)); lia.
  - rewrite Hq. apply Z.mod_small.
    split; [apply Z.div_pos|apply Z.div_lt_upper_bound]; lia.
Qed.

Lemma Packet_parse_truncated_tail t :
  truncated_tail t -> Packet_parse (of_bytes t) = Err UnexpectedEof.
Proof.
  intros [H|[o [il [fl [cd [ts [partial [-> [Ho [Hil [Hfl [Hcd [Hts Hp]]]]]]]]]]]]].
  - apply Packet_parse_short; exact H.
  - unfold Packet_parse, PacketDescription_parse, read_u32_be, read_i64_be,
      read_bytes, bind, ret; cbv beta.
    rewrite !of_bytes_app.
    rewrite read_exact_app by exact Ho.
    rewrite read_exact_app by exact Hil.
    rewrite read_exact_app by exact Hfl.
    rewrite read_exact_app by exact Hcd.
    rewrite read_exact_app by exact Hts.
    cbn [included_length]. rewrite read_exact_short by exact Hp. reflexivity.
Qed.

(** A record whose description block is complete but whose data is cut
    short makes [Packet::parse] fail with end of source; so does a source
    shorter than a description block. *)
Theorem Packet_parse_truncated o il fl cd ts partial :
  length o = 4%nat -> length il = 4%nat -> length fl = 4%nat ->
  length cd = 4%nat -> length ts = 8%nat ->
  (length partial < Z.to_nat (be_value il))%nat ->
  Packet_parse (of_bytes (o ++ il ++ fl ++ cd ++ ts ++ partial)) = Err UnexpectedEof.
Proof.
  intros. apply Packet_parse_truncated_tail. right.
  exists o, il, fl, cd, ts, partial. repeat split; assumption.
Qed.

Lemma raw_bytes_length rr : raw_ok rr -> (24 <= length (raw_bytes rr))%nat.
Proof.
  intros [Ho [Hil [Hfl [Hcd [Hts _]]]]]. unfold raw_bytes.
  rewrite !length_app. lia.
Qed.

Lemma Packet_parse_raw rr r :
  raw_ok rr -> Packet_parse (of_bytes (raw_bytes rr) ++ r) = Ok (raw_packet rr, r).
Proof.
  intros [Ho [Hil [Hfl [Hcd [Hts Hd]]]]]. unfold raw_bytes, raw_packet.
  apply Packet_parse_record; assumption.
Qed.

Lemma parse_loop_records rs r0 e fuel acc :
  Forall raw_ok rs -> Packet_parse r0 = Err e -> (length rs < fuel)%nat ->
  parse_loop fuel acc (of_bytes (concat (map raw_bytes rs)) ++ r0)
  = if ErrorKind_eqb e UnexpectedEof then Ok (acc ++ map raw_packet rs) else Err e.
Proof.
  intros Hok He. revert fuel acc.
  induction Hok as [|rr rs Hrr Hrs IH]; intros fuel acc Hf;
    (destruct fuel as [|fuel]; [simpl in Hf; lia|]).
  - simpl. rewrite He, app_nil_r. reflexivity.
  - cbn [concat map parse_loop]. rewrite of_bytes_app, <- app_assoc.
    rewrite Packet_parse_raw by exact Hrr.
    rewrite IH by (simpl in Hf; lia). rewrite <- app_assoc. reflexivity.
Qed.

Lemma concat_raw_length rs :
  Forall raw_ok rs -> (length rs <= length (concat (map raw_bytes rs)))%nat.
Proof.
  induction 1 as [|rr rs Hrr _ IH]; simpl; [lia|].
  rewrite length_app. pose proof (raw_bytes_length rr Hrr). lia.
Qed.

(** A source made of a valid header, any sequence of well-formed records,
    and trailing bytes that hold no complete record parses to exactly those
    records, in order; the trailing bytes are dropped. *)
Theorem Btsnoop_parse_records v l rs t :
  length v = 4%nat -> length l = 4%nat -> Forall raw_ok rs -> truncated_tail t ->
  Btsnoop_parse (of_bytes (IDENTIFICATION_PATTERN ++ v ++ l ++
                           concat (map raw_bytes rs) ++ t))
  = Ok (mkBtsnoop (mkHeader IdentificationPatternC (be_value v)
                     (DatalinkType_from (be_value l)))
          (map raw_packet rs)).
Proof.
  intros Hv Hl Hrs Ht.
  assert (Hh := Header_parse_valid v l (of_bytes (concat (map raw_bytes rs) ++ t)) Hv Hl).
  rewrite <- of_bytes_app, <- !app_assoc in Hh.
  rewrite (Btsnoop_parse_header _ _ _ Hh), of_bytes_app.
  rewrite (parse_loop_records rs _ UnexpectedEof) by
    (try exact Hrs; try (apply Packet_parse_truncated_tail; exact Ht);
     unfold of_bytes; rewrite length_app, !length_map;
     pose proof (concat_raw_length rs Hrs); lia).
  reflexivity.
Qed.


Lemma parse_loop_not_eof fuel acc r : parse_loop fuel acc r <> Err UnexpectedEof.
Proof.
  revert acc r; induction fuel as [|fuel IH]; intros acc r; simpl; [discriminate|].
  destruct (Packet_parse r) as [[p r']|e]; [apply IH|].
  destruct e; simpl; discriminate.
Qed.

(** [Btsnoop::parse] fails with end of source only when the header itself
    is cut short: once the header is read, running out of input is never an
    error. *)
Theorem Btsnoop_parse_eof_only_in_header r :
  Btsnoop_parse r = Err UnexpectedEof -> Header_parse r = Err UnexpectedEof.
Proof.
  unfold Btsnoop_parse. intros H.
  destruct (Header_parse r) as [[h r']|e]; [|congruence].
  destruct (parse_loop _ _ _) as [ps|e] eqn:E; [discriminate|].
  inversion H; subst e. exfalso; exact (parse_loop_not_eof _ _ _ E).
Qed.

(** A computation [extends] when appending input after what it reads does
    not change its result. *)
Definition extends {A} (m : M A) : Prop :=
  forall r a r' t, m r = Ok (a, r') -> m (r ++ t) = Ok (a, r' ++ t).

Lemma read_exact_extends n : extends (read_exact n).
Proof.
  intros r a r' t H.
  apply read_exact_ok in H as [Hr Hl]. subst r. rewrite <- app_assoc.
  apply read_exact_app; exact Hl.
Qed.

Lemma extends_ret {A} (a : A) : extends (ret a).
Proof. intros r x r' t H. inversion H; subst; reflexivity. Qed.

Lemma extends_lift {A} (x : io_result A) : extends (lift x).
Proof. intros r a r' t H. destruct x; inversion H; subst; reflexivity. Qed.

Lemma extends_bind {A B} (m : M A) (k : A -> M B) :
  extends m -> (forall a, extends (k a)) -> extends (bind m k).
Proof.
  intros Hm Hk r b r' t H. unfold bind in *.
  destruct (m r) as [[a r1]|e] eqn:E; try discriminate.
  rewrite (Hm _ _ _ t E). exact (Hk a _ _ _ t H).
Qed.

Ltac extends_step :=
  first
  [ apply extends_ret
  | apply extends_lift
  | apply read_exact_extends
  | apply extends_bind; [ | intro; cbv beta zeta ] ].

Lemma Packet_parse_extends : extends Packet_parse.
Proof.
  unfold Packet_parse, PacketDescription_parse, read_u32_be, read_i64_be, read_bytes.
  repeat extends_step.
Qed.

Lemma Header_parse_extends : extends Header_parse.
Proof.
  unfold Header_parse, read_u32_be, read_bytes. repeat extends_step.
Qed.

Lemma packets_loop_deterministic r res1 :
  packets_loop r res1 -> forall res2, packets_loop r res2 -> res1 = res2.
Proof.
  induction 1 as [r H|r e H Hne|r p r' res H Hl IH]; intros res2 H2;
    inversion H2; subst; try congruence.
  rewrite H in H0. inversion H0; subst. f_equal. apply IH; assumption.
Qed.

Lemma packets_loop_total r : exists res, packets_loop r res.
Proof.
  destruct (parse_loop_spec (S (length r)) r [] ltac:(lia)) as [res [H _]]. eauto.
Qed.

Lemma packets_loop_prefix r ps :
  packets_loop r (Ok ps) -> no_err r -> forall t, no_err t ->
  exists ps', packets_loop (r ++ t) (Ok ps') /\ is_prefix ps ps'.
Proof.
  intros H. remember (Ok ps) as res eqn:Hres. revert ps Hres.
  induction H as [r H|r e H Hne|r p r' res H Hl IH]; intros ps Hres Hr t Ht;
    try discriminate.
  - inversion Hres; subst ps.
    assert (Hrt : no_err (r ++ t)).
    { intros k Hk. apply in_app_or in Hk as [Hk|Hk]; [exact (Hr k Hk)|exact (Ht k Hk)]. }
    destruct (packets_loop_total (r ++ t)) as [res Hl].
    destruct (packets_loop_no_err _ _ Hl Hrt) as [ps' ->].
    exists ps'. split; [exact Hl|exists ps'; reflexivity].
  - destruct res as [ps0|e]; inversion Hres; subst ps.
    destruct (Packet_parse_eats _ _ _ H) as [pre [Hr' _]].
    assert (Hnr' : no_err r') by (subst r; exact (no_err_app_r _ _ Hr)).
    destruct (IH ps0 eq_refl Hnr' t Ht) as [ps' [Hl' [l Hp]]].
    exists (p :: ps'). split.
    + exact (loop_next _ p _ (Ok ps') (Packet_parse_extends _ _ _ t H) Hl').
    + exists l. subst ps'. reflexivity.
Qed.

(** On a finite byte source, appending bytes to a source that parses never
    makes the parse fail and never loses a record: the header is the same
    and the records of the shorter source are a prefix of those of the
    longer one. *)
Theorem Btsnoop_parse_append_prefix s t b :
  Btsnoop_parse (of_bytes s) = Ok b ->
  exists b', Btsnoop_parse (of_bytes (s ++ t)) = Ok b'
    /\ header b' = header b /\ is_prefix (packets b) (packets b').
Proof.
  unfold Btsnoop_parse. intros H.
  destruct (Header_parse (of_bytes s)) as [[h r']|e] eqn:Eh; try discriminate.
  destruct (parse_loop _ _ _) as [ps|e] eqn:El; try discriminate.
  inversion H; subst b; clear H.
  assert (Hnr' : no_err r').
  { destruct (Header_parse_ok _ _ _ Eh) as [v [l [_ [_ [Hs _]]]]].
    rewrite Hs in Eh.
    pose proof (no_err_of_bytes s) as N. rewrite Hs in N.
    exact (no_err_app_r _ _ N). }
  destruct (parse_loop_spec (S (length r')) r' [] ltac:(lia)) as [res [Hl Heq]].
  rewrite El in Heq. destruct res as [ps0|e]; inversion Heq; subst ps0.
  destruct (packets_loop_prefix _ _ Hl Hnr' (of_bytes t) (no_err_of_bytes t))
    as [ps' [Hl' Hp]].
  rewrite of_bytes_app, (Header_parse_extends _ _ _ _ Eh).
  destruct (parse_loop_spec (S (length (r' ++ of_bytes t))) (r' ++ of_bytes t) []
              ltac:(lia)) as [res2 [Hl2 Heq2]].
  rewrite Heq2, (packets_loop_deterministic _ _ Hl2 _ Hl').
  eexists. split; [reflexivity|split; [reflexivity|exact Hp]].
Qed.

(** ** Concrete instances of the further properties *)


Lemma PacketDescription_timestamp_sign_witness :
  exists d,
    PacketDescription_parse
      (of_bytes ([x00; x00; x00; x04] ++ [x00; x00; x00; x04] ++ [x00; x00; x00; x02]
                 ++ [x00; x00; x00; x00] ++ x80 :: [x00; x00; x00; x00; x00; x00; x01])
       ++ []) = Ok (d, [])
    /\ (timestamp d < 0 <-> 128 <= bz x80)
    /\ timestamp d mod 2 ^ 64 = be_value (x80 :: [x00; x00; x00; x00; x00; x00; x01]).
Proof.
  apply PacketDescription_timestamp_sign; reflexivity.
Defined.

Lemma Opcode_recompose_witness :
  513 = ogf (mkOpcode 513) * 1024 + ocf (mkOpcode 513) /\ 0 <= ocf (mkOpcode 513) < 1024.
Proof. apply Opcode_recompose; lia. Defined.

Lemma Packet_parse_truncated_witness :
  Packet_parse (of_bytes ([x00; x00; x00; x04] ++ [x00; x00; x00; x04] ++
                          [x00; x00; x00; x02] ++ [x00; x00; x00; x00] ++
                          [x00; x00; x00; x00; x00; x00; x00; x2a] ++ [x01; x01]))
  = Err UnexpectedEof.
Proof. apply Packet_parse_truncated; reflexivity || (simpl; lia). Defined.

Lemma Btsnoop_parse_records_witness :
  Btsnoop_parse (of_bytes (IDENTIFICATION_PATTERN ++ [x00; x00; x00; x01] ++
                           [x00; x00; x03; xea] ++
                           concat (map raw_bytes [sample_raw_record; sample_raw_record]) ++
                           [x01; x02; x03]))
  = Ok (mkBtsnoop (mkHeader IdentificationPatternC (be_value [x00; x00; x00; x01])
                     (DatalinkType_from (be_value [x00; x00; x03; xea])))
          (map raw_packet [sample_raw_record; sample_raw_record])).
Proof.
  apply Btsnoop_parse_records; try reflexivity.
  - repeat constructor.
  - left. simpl. lia.
Defined.


Lemma Btsnoop_parse_eof_only_in_header_witness :
  Header_parse (of_bytes [x62; x74]) = Err UnexpectedEof.
Proof. apply Btsnoop_parse_eof_only_in_header. reflexivity. Defined.

Lemma Btsnoop_parse_append_prefix_witness :
  exists b, Btsnoop_parse (of_bytes sample_header_bytes) = Ok b /\
  exists b', Btsnoop_parse (of_bytes (sample_header_bytes ++ sample_record_bytes)) = Ok b'
    /\ header b' = header b /\ is_prefix (packets b) (packets b').
Proof.
  eexists. split; [reflexivity|].
  apply Btsnoop_parse_append_prefix. reflexivity.
Defined.
